(** * Health & Wellness chatbot: conversation trimming and turn exchange

    A shallow embedding of the chat core of [app.py]: the message classes,
    the token counter handed to the trimmer, the [trimmer] runnable built
    from langchain's [trim_messages], the graph node [call_model], the
    streaming loop of the chat page, the sidebar menu and the profile
    form. *)

From Stdlib Require Import String Ascii.
From Stdlib Require Import List Arith Lia Bool NArith ZArith Permutation.
Import ListNotations.

Set Implicit Arguments.

(** ** Python strings

    [len] of a Python [str] counts code points, so a string is a list of
    code points.  [lit] embeds an ASCII literal. *)

Definition char := N.
Definition str := list char.

Definition lit (s : string) : str := map N_of_ascii (list_ascii_of_string s).

(** ** Messages ([langchain_core.messages]) *)

Inductive BaseMessage : Type :=
| SystemMessage (content : str)
| HumanMessage (content : str)
| AIMessage (content : str).

Definition content (m : BaseMessage) : str :=
  match m with
  | SystemMessage c | HumanMessage c | AIMessage c => c
  end.

Definition is_SystemMessage (m : BaseMessage) : bool :=
  match m with SystemMessage _ => true | _ => false end.

Definition is_AIMessage (m : BaseMessage) : bool :=
  match m with AIMessage _ => true | _ => false end.

(** The token counter is a duck-typed lambda: it accepts any object and
    looks for a [content] attribute.  [Opaque_] stands for an object
    without one. *)
Inductive pyobject : Type :=
| Message (m : BaseMessage)
| Opaque_.

(** [msg.content] guarded by [hasattr(msg, "content")]. *)
Definition getattr_content (o : pyobject) : option str :=
  match o with
  | Message m => Some (content m)
  | Opaque_ => None
  end.

(** ** Exceptions: a small error monad for the body of [try] *)

Inductive exn : Type := Exception (text : str).

Definition str_of_exn (e : exn) : str := let 'Exception t := e in t.

Inductive outcome (A : Type) : Type :=
| Return (a : A)
| Raise (e : exn).
Arguments Return {A} a.
Arguments Raise {A} e.

Definition bind {A B} (c : outcome A) (k : A -> outcome B) : outcome B :=
  match c with
  | Return a => k a
  | Raise e => Raise e
  end.

Notation "x <- c ;; k" := (bind c (fun x => k))
  (at level 61, c at next level, right associativity).

(** [try: body except Exception as e: handler]. *)
Definition try_except {A} (body : outcome A) (handler : exn -> A) : A :=
  match body with
  | Return a => a
  | Raise e => handler e
  end.

(** ** langchain's [trim_messages]

    [trim_messages] belongs to [langchain_core], not to the application.
    The definitions below follow the library for the arguments the
    application passes: [strategy="last"], no [allow_partial], no
    [start_on]/[end_on], a list-valued [token_counter].  Releases of the
    library differ only on a history whose leading system message alone
    is over budget; the histories of the chat page hold no system
    message. *)
Module langchain.
Section Trim.

Variable token_counter : list BaseMessage -> nat.

(** [len(messages).bit_length()] *)
Definition bit_length (n : nat) : nat :=
  match n with
  | 0 => 0
  | _ => S (Nat.log2 n)
  end.

(** The bounded binary search of [_first_max_tokens]: the loop runs
    [fuel] times over the candidates [left..right] and keeps in [left]
    the longest prefix seen to fit. *)
Fixpoint search (max_tokens : nat) (messages : list BaseMessage)
         (fuel left right : nat) : nat :=
  match fuel with
  | 0 => left
  | S fuel' =>
      if right <=? left then left
      else
        let mid := (left + right + 1) / 2 in
        if token_counter (firstn mid messages) <=? max_tokens
        then search max_tokens messages fuel' mid right
        else search max_tokens messages fuel' left (mid - 1)
  end.

Definition _first_max_tokens (messages : list BaseMessage)
           (max_tokens : nat) : list BaseMessage :=
  match messages with
  | [] => messages
  | _ =>
      if token_counter messages <=? max_tokens then messages
      else
        let idx := search max_tokens messages
                          (bit_length (length messages))
                          0 (length messages) in
        firstn idx messages
  end.

(** [_last_max_tokens]: a [SystemMessage] at index 0 is set aside when
    [include_system] holds, its tokens are taken off the budget
    ([max(0, max_tokens - system_tokens)], which is the truncated
    subtraction of [nat]), the rest is trimmed from the end, and the
    system message is put back in front. *)
Definition _last_max_tokens (messages : list BaseMessage)
           (max_tokens : nat) (include_system : bool)
  : list BaseMessage :=
  match messages with
  | [] => []
  | m0 :: rest =>
      if include_system && is_SystemMessage m0 then
        let system_tokens := token_counter [m0] in
        let remaining_tokens := max_tokens - system_tokens in
        m0 :: rev (_first_max_tokens (rev rest) remaining_tokens)
      else
        rev (_first_max_tokens (rev messages) max_tokens)
  end.

End Trim.

(** [trim_messages(strategy="last", max_tokens=..., token_counter=...,
    include_system=...)] applied to [messages]. *)
Definition trim_messages_last (max_tokens : nat)
           (token_counter : list BaseMessage -> nat)
           (include_system : bool) (messages : list BaseMessage)
  : list BaseMessage :=
  _last_max_tokens token_counter messages max_tokens include_system.

End langchain.

(** ** The application *)

(** [sum(len(msg.content) // 4 for msg in msgs if hasattr(msg, "content"))] *)
Fixpoint token_counter (msgs : list pyobject) : nat :=
  match msgs with
  | [] => 0
  | msg :: msgs' =>
      match getattr_content msg with
      | Some c => length c / 4 + token_counter msgs'
      | None => token_counter msgs'
      end
  end.

(** The counter as the trimmer calls it, on a list of messages. *)
Definition count_tokens (msgs : list BaseMessage) : nat :=
  token_counter (map Message msgs).

(** The system message of [prompt_template]. *)
Definition system_instruction : BaseMessage :=
  SystemMessage (lit "You are a helpful, friendly Health and Wellness assistant. Provide accurate and empathetic responses to user queries.").

(** [trimmer = trim_messages(strategy="last", max_tokens=200,
    token_counter=..., include_system=True)], with the budget left as a
    parameter; [trimmer] is the runnable of the application. *)
Definition trim (max_tokens : nat) (messages : list BaseMessage)
  : list BaseMessage :=
  langchain.trim_messages_last max_tokens count_tokens true messages.

Definition trimmer : list BaseMessage -> list BaseMessage := trim 200.

(** [class MessageState(TypedDict): messages: List[BaseMessage]] *)
Record MessageState : Type := mkState { messages : list BaseMessage }.

(** [if messages and isinstance(messages[-1], AIMessage):
        messages = messages[:-1]] *)
Definition drop_placeholder (msgs : list BaseMessage) : list BaseMessage :=
  match rev msgs with
  | [] => msgs
  | last :: _ => if is_AIMessage last then removelast msgs else msgs
  end.

(** The error text of the [except] branch: [f"❌ Error: {e}"]; the cross
    mark is the code point U+274C. *)
Definition error_marker : str := 10060%N :: lit " Error: ".

Definition error_text (e : exn) : str := error_marker ++ str_of_exn e.

Section Node.

(** [model.invoke], as one run of the node meets it: the remote chat
    model answers with the content of an [AIMessage] or raises.  Two
    runs need not meet the same answers: each run has its own
    [model_invoke]. *)
Variable model_invoke : list BaseMessage -> outcome str.

(** What [call_model] hands to the model: [prompt_messages = trimmed]. *)
Definition prompt_messages (state : MessageState) : list BaseMessage :=
  trimmer (drop_placeholder (messages state)).

(** The body of the [try] block. *)
Definition call_model_body (state : MessageState) : outcome MessageState :=
  let messages_ := drop_placeholder (messages state) in
  let trimmed := trimmer messages_ in
  let prompt_messages_ := trimmed in
  completion <- model_invoke prompt_messages_ ;;
  Return (mkState (messages_ ++ [AIMessage completion])).

Definition call_model (state : MessageState) : MessageState :=
  try_except (call_model_body state)
    (fun e => mkState (messages state ++ [AIMessage (error_text e)])).

End Node.

(** ** The chat page *)

Section Chat.

(** The second component of the pairs yielded by [runnable_graph.stream]. *)
Variable metadata : Type.

(** The [for chunk, _ in ...stream(...)] loop: [full_response] grows by
    the content of each chunk that is an [AIMessage]. *)
Fixpoint stream_loop (full_response : str)
         (chunks : list (BaseMessage * metadata)) : str :=
  match chunks with
  | [] => full_response
  | (chunk, _) :: chunks' =>
      if is_AIMessage chunk
      then stream_loop (full_response ++ content chunk) chunks'
      else stream_loop full_response chunks'
  end.

(** One submission on the chat page.  [stream] is the run of the graph
    on the history; [chat_history] is the conversation store. *)
Definition chat_submit
           (stream : list BaseMessage -> list (BaseMessage * metadata))
           (chat_history : list BaseMessage) (prompt : str)
  : list BaseMessage :=
  match prompt with
  | [] => chat_history
  | _ =>
      let chat_history1 := chat_history ++ [HumanMessage prompt] in
      let full_response := stream_loop [] (stream chat_history1) in
      chat_history1 ++ [AIMessage full_response]
  end.

End Chat.

(** ** What the specification says, for comparison *)

(** The cost of the specification: length over four, rounded up. *)
Definition ceil_div4 (n : nat) : nat := (n + 3) / 4.

(** The cost the counter charges to one message inside a list. *)
Definition charged (m : BaseMessage) : nat := count_tokens [m].

(** Does the list start with a [SystemMessage]?  The histories of the
    chat page never do: they hold the user's and the assistant's turns. *)
Definition leading_system (msgs : list BaseMessage) : bool :=
  match msgs with
  | m0 :: _ => is_SystemMessage m0
  | [] => false
  end.

(** An object the counter charges nothing for: it has no [content]
    attribute, or its content is shorter than four characters. *)
Definition costs_nothing (o : pyobject) : Prop :=
  match getattr_content o with
  | Some c => length c < 4
  | None => True
  end.

(** ** More of the chat page *)

Definition is_HumanMessage (m : BaseMessage) : bool :=
  match m with HumanMessage _ => true | _ => false end.

(** [role = "human" if isinstance(message, HumanMessage) else "ai"] *)
Definition chat_role (message : BaseMessage) : str :=
  if is_HumanMessage message then lit "human" else lit "ai".

(** The loop that shows the stored history: one chat bubble per message,
    with its role and its content. *)
Definition render_history (chat_history : list BaseMessage)
  : list (str * str) :=
  map (fun message => (chat_role message, content message)) chat_history.

Section ChatPage.

Variable metadata : Type.

(** The streaming loop again, with its effect: the list of the strings
    handed to [placeholder.write], one after each [AIMessage] chunk. *)
Fixpoint stream_writes (full_response : str)
         (chunks : list (BaseMessage * metadata)) : list str :=
  match chunks with
  | [] => []
  | (chunk, _) :: chunks' =>
      if is_AIMessage chunk
      then let full_response' := full_response ++ content chunk in
           full_response' :: stream_writes full_response' chunks'
      else stream_writes full_response chunks'
  end.

(** The histories the chat page can hold.  The session starts with
    [chat_history = []].  A rerun of the script with a prompt stores the
    human turn, streams, and stores the assistant turn ([chat_submit]),
    whatever the graph streams; a run that is cut short while streaming
    has stored the human turn only. *)
Inductive reachable : list BaseMessage -> Prop :=
| reachable_start : reachable []
| reachable_submit : forall stream chat_history prompt,
    reachable chat_history ->
    reachable (@chat_submit metadata stream chat_history prompt)
| reachable_interrupted : forall chat_history c prompt,
    reachable chat_history ->
    reachable (chat_history ++ [HumanMessage (c :: prompt)]).

End ChatPage.

(** [follows after_human h]: [h] holds human and assistant turns only
    and each of its assistant turns comes right after a human turn;
    [after_human] tells whether a human turn stands just before [h]. *)
Fixpoint follows (after_human : bool) (h : list BaseMessage) : bool :=
  match h with
  | [] => true
  | HumanMessage _ :: h' => follows true h'
  | AIMessage _ :: h' => after_human && follows false h'
  | SystemMessage _ :: _ => false
  end.

Definition dialogue (h : list BaseMessage) : bool := follows false h.

(** The number of characters of a list of messages. *)
Definition total_chars (msgs : list BaseMessage) : nat :=
  list_sum (map (fun m => length (content m)) msgs).

(** [has_content o]: [hasattr(o, "content")]. *)
Definition has_content (o : pyobject) : bool :=
  match getattr_content o with Some _ => true | None => false end.

(** ** The sidebar menu and the profile page *)

(** Python's [==] on strings: the same code points. *)
Fixpoint str_eqb (a b : str) : bool :=
  match a, b with
  | [], [] => true
  | x :: a', y :: b' => N.eqb x y && str_eqb a' b'
  | _, _ => false
  end.

(** The options of [st.sidebar.radio]. *)
Definition menu_options : list str :=
  [ 0x1f4ac%N :: lit " Chat";
    0x1f31e%N :: lit " Daily Tips";
    [0x1f881; 0x200d; 0x2642; 0xfe0f]%N ++ lit " Profile & Goals";
    [0x1f6e0; 0xfe0f]%N ++ lit " Tools" ].

Inductive page : Type := ChatPage | DailyTipsPage | ProfilePage | ToolsPage.

(** The [if menu == ... elif menu == ...] chain; there is no [else]. *)
Definition dispatch (menu : str) : option page :=
  if str_eqb menu (0x1f4ac%N :: lit " Chat") then Some ChatPage
  else if str_eqb menu (0x1f31e%N :: lit " Daily Tips") then Some DailyTipsPage
  else if str_eqb menu
            ([0x1f881; 0x200d; 0x2642; 0xfe0f]%N ++ lit " Profile & Goals")
       then Some ProfilePage
  else if str_eqb menu ([0x1f6e0; 0xfe0f]%N ++ lit " Tools") then Some ToolsPage
  else None.

Definition genders : list str := [lit "Male"; lit "Female"; lit "Other"].

Definition activities : list str :=
  [lit "Sedentary"; lit "Light"; lit "Moderate"; lit "Active";
   lit "Very Active"].

Definition goals : list str :=
  [lit "Lose weight"; lit "Gain weight"; lit "Maintain weight";
   lit "Build muscle"; lit "Improve fitness"; lit "Enhance mental health"].

Section Profile.

(** Python's floats: the profile page stores a weight and computes
    nothing with it.  [zero] is [0.0]. *)
Variable float : Type.
Variable zero : float.

Inductive value : Type :=
| VStr (s : str)
| VInt (z : Z)
| VFloat (f : float).

(** [st.session_state.profile]: a dict with string keys, as the list of
    its items. *)
Definition dict : Type := list (str * value).

(** [d.get(key, default)] *)
Fixpoint dict_get (d : dict) (key : str) (default : value) : value :=
  match d with
  | [] => default
  | (k, v) :: d' => if str_eqb k key then v else dict_get d' key default
  end.

(** [x == option] for an option of a selectbox, a string. *)
Definition value_eq_str (x : value) (option_ : str) : bool :=
  match x with
  | VStr s => str_eqb s option_
  | _ => false
  end.

(** [options.index(x)]; [None] stands for the [ValueError] that is
    raised when [x] is not in the list. *)
Fixpoint index (options : list str) (x : value) : option nat :=
  match options with
  | [] => None
  | o :: options' =>
      if value_eq_str x o then Some 0
      else match index options' x with
           | Some i => Some (S i)
           | None => None
           end
  end.

(** The [value=] and [index=] arguments the page gives to its widgets. *)
Record form_arguments : Type := mkForm {
  name_value : value;
  age_value : value;
  gender_index : nat;
  weight_value : value;
  height_value : value;
  activity_index : nat;
  goal_index : nat
}.

(** The profile page up to the button: every [profile.get] with its
    default, every [index]; [None] when an [index] raises. *)
Definition profile_form (profile : dict) : option form_arguments :=
  let name := dict_get profile (lit "name") (VStr []) in
  let age := dict_get profile (lit "age") (VInt 0) in
  match index genders (dict_get profile (lit "gender") (VStr (lit "Male"))) with
  | None => None
  | Some gender =>
      let weight := dict_get profile (lit "weight") (VFloat zero) in
      let height := dict_get profile (lit "height") (VInt 0) in
      match index activities
                  (dict_get profile (lit "activity")
                            (VStr (lit "Sedentary"))) with
      | None => None
      | Some activity =>
          match index goals
                      (dict_get profile (lit "goal")
                                (VStr (lit "Maintain weight"))) with
          | None => None
          | Some goal =>
              Some (mkForm name age gender weight height activity goal)
          end
      end
  end.

(** The dict stored by the "Save Profile" button. *)
Definition save_profile (name : str) (age : Z) (gender : str)
           (weight : float) (height : Z) (activity goal : str) : dict :=
  [ (lit "name", VStr name);
    (lit "age", VInt age);
    (lit "gender", VStr gender);
    (lit "weight", VFloat weight);
    (lit "height", VInt height);
    (lit "activity", VStr activity);
    (lit "goal", VStr goal) ].

End Profile.

Arguments VStr {float} s.
Arguments VInt {float} z.
Arguments VFloat {float} f.

(** * Facts about the library's trimming

    The facts hold for any token counter that is additive over
    concatenation, as a sum over the messages is. *)
Section TrimFacts.

Variable tc : list BaseMessage -> nat.
Hypothesis tc_app : forall a b, tc (a ++ b) = tc a + tc b.

Lemma tc_nil : tc [] = 0.
Proof.
  pose proof (tc_app [] []) as H. simpl in H. lia.
Qed.

Lemma tc_cons : forall m l, tc (m :: l) = tc [m] + tc l.
Proof.
  intros m l. change (m :: l) with ([m] ++ l). apply tc_app.
Qed.

Lemma tc_rev : forall l, tc (rev l) = tc l.
Proof.
  induction l as [|m l IH]; simpl; [reflexivity|].
  rewrite tc_app, IH, (tc_cons m l). lia.
Qed.

Lemma tc_firstn_mono : forall l j k,
    j <= k -> tc (firstn j l) <= tc (firstn k l).
Proof.
  intros l j k Hjk.
  rewrite <- (firstn_skipn j (firstn k l)).
  rewrite firstn_firstn, (Nat.min_l j k Hjk), tc_app. lia.
Qed.

Lemma tc_firstn_le : forall l k, tc (firstn k l) <= tc l.
Proof.
  intros l k. rewrite <- (firstn_skipn k l) at 2. rewrite tc_app. lia.
Qed.

Lemma search_S : forall B msgs fuel left right,
    langchain.search tc B msgs (S fuel) left right =
    if right <=? left then left
    else if tc (firstn ((left + right + 1) / 2) msgs) <=? B
         then langchain.search tc B msgs fuel ((left + right + 1) / 2) right
         else langchain.search tc B msgs fuel left
                               ((left + right + 1) / 2 - 1).
Proof. reflexivity. Qed.

(** The window kept by the search always fits. *)
Lemma search_fits : forall B msgs fuel left right,
    tc (firstn left msgs) <= B ->
    tc (firstn (langchain.search tc B msgs fuel left right) msgs) <= B.
Proof.
  intros B msgs fuel. induction fuel as [|fuel IH]; intros left right Hl.
  - exact Hl.
  - rewrite search_S. destruct (right <=? left); [exact Hl|].
    destruct (tc (firstn ((left + right + 1) / 2) msgs) <=? B) eqn:E.
    + apply IH. now apply Nat.leb_le.
    + now apply IH.
Qed.

Lemma half_up_bounds : forall left right,
    left < right ->
    left < (left + right + 1) / 2 <= right /\
    right - (left + right + 1) / 2 <= (right - left) / 2 /\
    (left + right + 1) / 2 - 1 - left <= (right - left) / 2.
Proof.
  intros left right H.
  pose proof (Nat.div_mod_eq (left + right + 1) 2) as E1.
  pose proof (Nat.mod_upper_bound (left + right + 1) 2 ltac:(lia)) as E2.
  pose proof (Nat.div_mod_eq (right - left) 2) as E3.
  pose proof (Nat.mod_upper_bound (right - left) 2 ltac:(lia)) as E4.
  lia.
Qed.

(** With enough rounds the search stops on the longest prefix that
    fits: every longer prefix is over budget. *)
Lemma search_maximal : forall B msgs fuel left right,
    left <= right ->
    right - left < 2 ^ fuel ->
    (forall k, right < k <= length msgs -> B < tc (firstn k msgs)) ->
    forall k, langchain.search tc B msgs fuel left right < k <= length msgs ->
              B < tc (firstn k msgs).
Proof.
  intros B msgs fuel.
  induction fuel as [|fuel IH]; intros left right Hlr Hw Hinv k Hk.
  - simpl in *. apply Hinv. lia.
  - rewrite search_S in Hk. destruct (right <=? left) eqn:Ele.
    + apply Nat.leb_le in Ele. apply Hinv. lia.
    + apply Nat.leb_gt in Ele.
      destruct (half_up_bounds Ele) as [Hm [Hhi Hlo]].
      assert (Hhalf : (right - left) / 2 < 2 ^ fuel).
      { apply Nat.Div0.div_lt_upper_bound.
        rewrite Nat.pow_succ_r' in Hw. lia. }
      destruct (tc (firstn ((left + right + 1) / 2) msgs) <=? B) eqn:E.
      * apply (IH ((left + right + 1) / 2) right); try lia; assumption.
      * apply Nat.leb_gt in E.
        apply (IH left ((left + right + 1) / 2 - 1)); try lia.
        intros j Hj.
        eapply Nat.lt_le_trans; [exact E|].
        apply tc_firstn_mono. lia.
Qed.

Lemma bit_length_spec : forall n, n < 2 ^ langchain.bit_length n.
Proof.
  intros [|n]; simpl; [lia|].
  pose proof (Nat.log2_spec (S n) ltac:(lia)) as [_ H].
  rewrite Nat.pow_succ_r' in H. simpl in H. lia.
Qed.

Local Abbreviation F := (langchain._first_max_tokens tc).
Local Abbreviation L := (langchain._last_max_tokens tc).

Lemma first_max_all : forall msgs B, tc msgs <= B -> F msgs B = msgs.
Proof.
  intros [|m msgs] B H; [reflexivity|].
  unfold langchain._first_max_tokens.
  apply Nat.leb_le in H. now rewrite H.
Qed.

(** [_first_max_tokens] returns [messages[:idx]] for the length [idx]
    of what it returns. *)
Lemma first_max_prefix : forall msgs B,
    F msgs B = firstn (length (F msgs B)) msgs.
Proof.
  intros [|m msgs] B; [reflexivity|].
  unfold langchain._first_max_tokens.
  destruct (tc (m :: msgs) <=? B).
  - now rewrite firstn_all.
  - set (idx := langchain.search tc B (m :: msgs) _ _ _).
    rewrite length_firstn.
    destruct (Nat.min_spec idx (length (m :: msgs))) as [[_ ->]|[Hle ->]];
      [reflexivity|].
    now rewrite firstn_all, firstn_all2.
Qed.

Lemma first_max_fits : forall msgs B, tc (F msgs B) <= B.
Proof.
  intros [|m msgs] B.
  - simpl. rewrite tc_nil. lia.
  - unfold langchain._first_max_tokens.
    destruct (tc (m :: msgs) <=? B) eqn:E.
    + now apply Nat.leb_le.
    + apply search_fits. simpl. rewrite tc_nil. lia.
Qed.

(** Every prefix longer than the one returned is over budget. *)
Lemma first_max_maximal : forall msgs B k,
    length (F msgs B) < k <= length msgs -> B < tc (firstn k msgs).
Proof.
  intros [|m msgs] B k Hk; [simpl in Hk; lia|].
  unfold langchain._first_max_tokens in Hk.
  destruct (tc (m :: msgs) <=? B) eqn:E; [lia|].
  rewrite length_firstn in Hk.
  eapply (@search_maximal B (m :: msgs)
            (langchain.bit_length (length (m :: msgs)))
            0 (length (m :: msgs))).
  - lia.
  - rewrite Nat.sub_0_r. apply bit_length_spec.
  - intros j Hj. lia.
  - lia.
Qed.

Lemma first_max_idem : forall msgs B, F (F msgs B) B = F msgs B.
Proof.
  intros msgs B. apply first_max_all, first_max_fits.
Qed.

(** When the first message alone is over budget nothing is kept. *)
Lemma first_max_none : forall m msgs B, B < tc [m] -> F (m :: msgs) B = [].
Proof.
  intros m msgs B H.
  pose proof (first_max_fits (m :: msgs) B) as Hfit.
  rewrite first_max_prefix in Hfit |- *.
  destruct (length (F (m :: msgs) B)) as [|k]; [reflexivity|].
  simpl in Hfit. rewrite tc_cons in Hfit. lia.
Qed.

Lemma last_nil : forall B incl, L [] B incl = [].
Proof. reflexivity. Qed.

Lemma last_system : forall m0 rest B,
    is_SystemMessage m0 = true ->
    L (m0 :: rest) B true = m0 :: rev (F (rev rest) (B - tc [m0])).
Proof.
  intros m0 rest B H. unfold langchain._last_max_tokens.
  now rewrite H.
Qed.

Lemma last_plain : forall m0 rest B,
    is_SystemMessage m0 = false ->
    L (m0 :: rest) B true = rev (F (rev (m0 :: rest)) B).
Proof.
  intros m0 rest B H. unfold langchain._last_max_tokens.
  now rewrite H.
Qed.

(** A history that fits is kept whole. *)
Lemma last_all : forall msgs B, tc msgs <= B -> L msgs B true = msgs.
Proof.
  intros [|m0 rest] B H; [reflexivity|].
  destruct (is_SystemMessage m0) eqn:E.
  - rewrite last_system by exact E. rewrite first_max_all, rev_involutive;
      [reflexivity|].
    rewrite tc_rev. rewrite tc_cons in H. lia.
  - rewrite last_plain by exact E. rewrite first_max_all, rev_involutive;
      [reflexivity|].
    now rewrite tc_rev.
Qed.

(** Without a leading system message the window fits the budget. *)
Lemma last_fits_plain : forall msgs B,
    leading_system msgs = false ->
    tc (L msgs B true) <= B.
Proof.
  intros [|m0 rest] B H.
  - simpl. rewrite tc_nil. lia.
  - destruct (is_SystemMessage m0) eqn:E.
    + simpl in H. congruence.
    + rewrite last_plain by exact E. rewrite tc_rev. apply first_max_fits.
Qed.

(** With one, the window fits as soon as the system message does. *)
Lemma last_fits_system : forall m0 rest B,
    tc [m0] <= B -> tc (L (m0 :: rest) B true) <= B.
Proof.
  intros m0 rest B H.
  destruct (is_SystemMessage m0) eqn:E.
  - rewrite last_system by exact E. rewrite tc_cons, tc_rev.
    pose proof (first_max_fits (rev rest) (B - tc [m0])). lia.
  - rewrite last_plain by exact E. rewrite tc_rev. apply first_max_fits.
Qed.

(** The window is a trailing part of the history: what is dropped
    comes before what is kept. *)
Lemma last_suffix_plain : forall msgs B,
    leading_system msgs = false ->
    L msgs B true = skipn (length msgs - length (L msgs B true)) msgs.
Proof.
  intros [|m0 rest] B H; [reflexivity|].
  destruct (is_SystemMessage m0) eqn:E.
  - simpl in H. congruence.
  - rewrite last_plain by exact E. rewrite length_rev.
    rewrite first_max_prefix at 1.
    set (k := length (F (rev (m0 :: rest)) B)).
    assert (Hk : k <= length (m0 :: rest)).
    { subst k. rewrite first_max_prefix, length_firstn, length_rev. lia. }
    rewrite firstn_rev, rev_involutive. reflexivity.
Qed.

Lemma last_idem : forall msgs B,
    L (L msgs B true) B true = L msgs B true.
Proof.
  intros [|m0 rest] B; [reflexivity|].
  destruct (is_SystemMessage m0) eqn:E.
  - rewrite !last_system by exact E.
    now rewrite rev_involutive, first_max_idem.
  - apply last_all.
    rewrite last_plain by exact E. rewrite tc_rev. apply first_max_fits.
Qed.

(** When the most recent message alone is over budget, no message of a
    history without leading system message is kept. *)
Lemma last_none : forall h m B,
    leading_system (h ++ [m]) = false ->
    B < tc [m] -> L (h ++ [m]) B true = [].
Proof.
  intros h m B Hhd Hm.
  destruct (h ++ [m]) as [|m0 rest] eqn:Eh.
  - reflexivity.
  - destruct (is_SystemMessage m0) eqn:E.
    + simpl in Hhd. congruence.
    + rewrite last_plain by exact E. rewrite <- Eh, rev_app_distr.
      change (rev [m] ++ rev h) with (m :: rev h).
      rewrite first_max_none by exact Hm. reflexivity.
Qed.

(** Every trailing part longer than the window is over budget. *)
Lemma last_maximal_plain : forall msgs B k,
    leading_system msgs = false ->
    length (L msgs B true) < k <= length msgs ->
    B < tc (skipn (length msgs - k) msgs).
Proof.
  intros [|m0 rest] B k H Hk; [simpl in Hk; lia|].
  destruct (is_SystemMessage m0) eqn:E; [simpl in H; congruence|].
  rewrite last_plain in Hk by exact E. rewrite length_rev in Hk.
  rewrite <- tc_rev, <- firstn_rev.
  apply first_max_maximal. now rewrite length_rev.
Qed.

End TrimFacts.

(** * The application's counter and trimmer *)

Lemma token_counter_app : forall a b,
    token_counter (a ++ b) = token_counter a + token_counter b.
Proof.
  induction a as [|o a IH]; intros b; simpl; [reflexivity|].
  rewrite IH. destruct (getattr_content o); lia.
Qed.

Lemma count_tokens_app : forall a b,
    count_tokens (a ++ b) = count_tokens a + count_tokens b.
Proof.
  intros a b. unfold count_tokens. now rewrite map_app, token_counter_app.
Qed.

Lemma charged_floor : forall m, charged m = length (content m) / 4.
Proof.
  intros m. unfold charged, count_tokens.
  cbn [map token_counter getattr_content]. lia.
Qed.

Lemma drop_placeholder_last : forall h m,
    drop_placeholder (h ++ [m]) = if is_AIMessage m then h else h ++ [m].
Proof.
  intros h m. unfold drop_placeholder.
  rewrite rev_app_distr. simpl.
  destruct (is_AIMessage m); [apply removelast_last | reflexivity].
Qed.

Lemma trim_fits : forall B h,
    leading_system h = false -> count_tokens (trim B h) <= B.
Proof.
  intros B h H. unfold trim, langchain.trim_messages_last.
  apply last_fits_plain; solve [apply count_tokens_app | assumption].
Qed.

Lemma trim_all : forall B h, count_tokens h <= B -> trim B h = h.
Proof.
  intros B h H. unfold trim, langchain.trim_messages_last.
  apply last_all; solve [apply count_tokens_app | assumption].
Qed.

Lemma trim_none : forall B h m,
    leading_system (h ++ [m]) = false -> B < charged m ->
    trim B (h ++ [m]) = [].
Proof.
  intros B h m Hh Hm. unfold trim, langchain.trim_messages_last.
  apply last_none; solve [apply count_tokens_app | assumption].
Qed.

(** The window is the longest trailing part of the history that fits. *)
Lemma trim_suffix : forall B h,
    leading_system h = false ->
    trim B h = skipn (length h - length (trim B h)) h.
Proof.
  intros B h H. unfold trim, langchain.trim_messages_last.
  apply last_suffix_plain; solve [apply count_tokens_app | assumption].
Qed.

Lemma trim_longest : forall B h k,
    leading_system h = false ->
    length (trim B h) < k <= length h ->
    B < count_tokens (skipn (length h - k) h).
Proof.
  intros B h k H Hk. unfold trim, langchain.trim_messages_last in Hk.
  apply last_maximal_plain; solve [apply count_tokens_app | assumption].
Qed.

Lemma stream_loop_app : forall (metadata : Type) (xs ys : list (BaseMessage * metadata)) acc,
    stream_loop acc (xs ++ ys) = stream_loop (stream_loop acc xs) ys.
Proof.
  induction xs as [|[chunk md] xs IH]; intros ys acc; simpl; [reflexivity|].
  destruct (is_AIMessage chunk); apply IH.
Qed.

(** The loop keeps the contents of the [AIMessage] chunks, in order, and
    skips the other chunks. *)
Lemma stream_loop_filter : forall (metadata : Type) (chunks : list (BaseMessage * metadata)) acc,
    stream_loop acc chunks =
    acc ++ concat (map content (filter is_AIMessage (map fst chunks))).
Proof.
  induction chunks as [|[chunk md] chunks IH]; intros acc; simpl.
  - now rewrite app_nil_r.
  - destruct (is_AIMessage chunk); simpl; rewrite IH;
      [now rewrite app_assoc | reflexivity].
Qed.

(** * The properties of the specification *)

(** C1, as the code has it: for every history that does not start with
    a system message, the window selected by the trimmer costs at most
    the budget of 200 units, with no exception; when the most recent
    turn alone costs more than 200 units the window is empty. *)
Theorem trimmer_within_budget : forall h,
    leading_system h = false ->
    count_tokens (trimmer h) <= 200 /\
    (forall h' m, h = h' ++ [m] -> 200 < charged m -> trimmer h = []).
Proof.
  intros h Hh. split.
  - now apply trim_fits.
  - intros h' m -> Hm. now apply trim_none.
Qed.

Lemma trimmer_within_budget_witness :
  count_tokens (trimmer [HumanMessage (repeat 97%N 804)]) <= 200 /\
  trimmer [HumanMessage (repeat 97%N 804)] = [].
Proof.
  destruct (@trimmer_within_budget [HumanMessage (repeat 97%N 804)] eq_refl)
    as [Hcost Hempty].
  split; [exact Hcost|].
  apply (Hempty [] (HumanMessage (repeat 97%N 804))).
  - reflexivity.
  - vm_compute. apply le_n.
Defined.

(** C1, as the specification states it, fails on a history of one human
    turn of 804 characters: the system instruction and that turn cost
    more than 200 units together, and the window handed to the model is
    empty instead of holding the two. *)
Lemma oversized_turn_leaves_empty_window :
  let turn := HumanMessage (repeat 97%N 804) in
  200 < count_tokens [system_instruction; turn] /\
  prompt_messages (mkState [turn]) = [] /\
  prompt_messages (mkState [turn]) <> [system_instruction; turn].
Proof.
  vm_compute. repeat split.
  - apply Nat.leb_le. vm_compute. reflexivity.
  - discriminate.
Qed.

(** C2 fails in the code: for the history of one human turn "hi", the
    prompt handed to the model is that turn alone, and the system
    instruction of [prompt_template] is not in it. *)
Theorem prompt_lacks_system_instruction :
  prompt_messages (mkState [HumanMessage (lit "hi")])
  = [HumanMessage (lit "hi")] /\
  hd_error (prompt_messages (mkState [HumanMessage (lit "hi")]))
  <> Some system_instruction /\
  ~ In system_instruction (prompt_messages (mkState [HumanMessage (lit "hi")])).
Proof.
  vm_compute. repeat split.
  - discriminate.
  - intros [H|[]]. discriminate H.
Qed.

(** C3, as the code has it: the cost charged to a message is the length
    of its content divided by four, rounded down, wherever the message
    stands in the list that is counted. *)
Theorem charged_cost_rounds_down : forall m before after,
    charged m = length (content m) / 4 /\
    count_tokens (before ++ m :: after)
    = count_tokens (before ++ after) + length (content m) / 4.
Proof.
  intros m before after. split; [apply charged_floor|].
  change (m :: after) with ([m] ++ after).
  rewrite !count_tokens_app. fold (charged m). rewrite charged_floor. lia.
Qed.

(** C3, as the specification states it, fails on the turn "hi": the
    counter charges 0 and the rounded-up quotient is 1. *)
Lemma charged_is_not_rounded_up :
  charged (HumanMessage (lit "hi"))
  <> ceil_div4 (length (content (HumanMessage (lit "hi")))).
Proof.
  vm_compute. discriminate.
Qed.

(** C4: a history that ends with an assistant turn loses exactly that
    turn before trimming, and a history that ends with another turn
    loses none. *)
Theorem placeholder_removed_before_trimming : forall h m,
    (is_AIMessage m = true ->
     drop_placeholder (h ++ [m]) = h /\
     prompt_messages (mkState (h ++ [m])) = trimmer h) /\
    (is_AIMessage m = false ->
     drop_placeholder (h ++ [m]) = h ++ [m] /\
     prompt_messages (mkState (h ++ [m])) = trimmer (h ++ [m])).
Proof.
  intros h m. unfold prompt_messages. cbn [messages].
  rewrite drop_placeholder_last.
  split; intros ->; split; reflexivity.
Qed.

Lemma placeholder_removed_before_trimming_witness :
  drop_placeholder ([HumanMessage (lit "...")] ++ [AIMessage (lit "stale")])
  = [HumanMessage (lit "...")] /\
  drop_placeholder ([AIMessage (lit "hello")] ++ [HumanMessage (lit "hi")])
  = [AIMessage (lit "hello")] ++ [HumanMessage (lit "hi")].
Proof.
  split.
  - apply (placeholder_removed_before_trimming
             [HumanMessage (lit "...")] (AIMessage (lit "stale"))).
    reflexivity.
  - apply (placeholder_removed_before_trimming
             [AIMessage (lit "hello")] (HumanMessage (lit "hi"))).
    reflexivity.
Defined.

(** C5: when the remote invocation raises, [call_model] still returns a
    state; its last message is an assistant turn whose content starts
    with the error marker, the cross mark U+274C followed by " Error: ",
    and goes on with the text of the exception. *)
Theorem call_model_fails_soft : forall model_invoke state e,
    model_invoke (prompt_messages state) = Raise e ->
    exists turn,
      call_model model_invoke state = mkState (messages state ++ [turn]) /\
      is_AIMessage turn = true /\
      content turn = (10060%N :: lit " Error: ") ++ str_of_exn e.
Proof.
  intros model_invoke state e H.
  exists (AIMessage (error_text e)).
  unfold call_model, call_model_body.
  change (trimmer (drop_placeholder (messages state)))
    with (prompt_messages state).
  rewrite H. cbn [bind try_except]. repeat split.
Qed.

Lemma call_model_fails_soft_witness :
  exists turn,
    call_model (fun _ => Raise (Exception (lit "timeout")))
               (mkState [HumanMessage (lit "hi")])
    = mkState (messages (mkState [HumanMessage (lit "hi")]) ++ [turn]) /\
    is_AIMessage turn = true /\
    content turn
    = (10060%N :: lit " Error: ") ++ str_of_exn (Exception (lit "timeout")).
Proof.
  apply (@call_model_fails_soft
           (fun _ => Raise (Exception (lit "timeout")))
           (mkState [HumanMessage (lit "hi")])
           (Exception (lit "timeout"))).
  reflexivity.
Defined.

(** C6: for a history that ends with a turn other than an assistant
    turn, a successful invocation returns the whole input history,
    unchanged and in order, followed by exactly one new assistant turn;
    the trimmed window only reaches the model. *)
Theorem call_model_preserves_history : forall model_invoke h m completion,
    is_AIMessage m = false ->
    model_invoke (trimmer (h ++ [m])) = Return completion ->
    call_model model_invoke (mkState (h ++ [m]))
    = mkState ((h ++ [m]) ++ [AIMessage completion]).
Proof.
  intros model_invoke h m completion Hm Hok.
  unfold call_model, call_model_body. cbn [messages].
  rewrite drop_placeholder_last, Hm, Hok. reflexivity.
Qed.

Lemma call_model_preserves_history_witness :
  call_model (fun _ => Return (lit "Hello!"))
             (mkState ([] ++ [HumanMessage (lit "hi")]))
  = mkState (([] ++ [HumanMessage (lit "hi")]) ++ [AIMessage (lit "Hello!")]).
Proof.
  apply (@call_model_preserves_history
           (fun _ => Return (lit "Hello!")) [] (HumanMessage (lit "hi"))
           (lit "Hello!")); reflexivity.
Defined.

(** C7: when the stream yields the fragments as assistant chunks, the
    assistant turn appended to the conversation store holds the
    concatenation of all the fragments in arrival order. *)
Theorem streamed_fragments_concatenated :
  forall (metadata : Type)
         (stream : list BaseMessage -> list (BaseMessage * metadata))
         (chat_history : list BaseMessage) (prompt : str)
         (fragments : list (str * metadata)),
    prompt <> [] ->
    stream (chat_history ++ [HumanMessage prompt])
    = map (fun '(fragment, md) => (AIMessage fragment, md)) fragments ->
    chat_submit stream chat_history prompt
    = chat_history ++
      [HumanMessage prompt; AIMessage (concat (map fst fragments))].
Proof.
  intros metadata stream chat_history prompt fragments Hp Hs.
  unfold chat_submit. destruct prompt as [|c prompt]; [congruence|].
  rewrite Hs, <- app_assoc. simpl. do 3 f_equal.
  rewrite stream_loop_filter. simpl. f_equal.
  clear. induction fragments as [|[f md] fragments IH]; simpl;
    [reflexivity | now rewrite IH].
Qed.

Lemma streamed_fragments_concatenated_witness :
  chat_submit
    (fun _ => map (fun '(fragment, md) => (AIMessage fragment, md))
                  [(lit "He", tt); (lit "llo!", tt)])
    [] (lit "hi")
  = [] ++ [HumanMessage (lit "hi");
           AIMessage (concat (map fst [(lit "He", tt); (lit "llo!", tt)]))].
Proof.
  apply (@streamed_fragments_concatenated unit
           (fun _ => map (fun '(fragment, md) => (AIMessage fragment, md))
                         [(lit "He", tt); (lit "llo!", tt)])
           [] (lit "hi") [(lit "He", tt); (lit "llo!", tt)]).
  - discriminate.
  - reflexivity.
Defined.

(** C8: trimming is idempotent: trimming a trimmed window again under
    the same budget returns the same window. *)
Theorem trim_idempotent : forall B h, trim B (trim B h) = trim B h.
Proof.
  intros B h. unfold trim, langchain.trim_messages_last.
  apply last_idem, count_tokens_app.
Qed.

(** C9: on the error path the placeholder is not removed from what is
    returned: a history that ends with an assistant turn comes back
    whole, followed by the error turn. *)
Theorem error_path_keeps_placeholder : forall model_invoke h stale e,
    model_invoke (trimmer h) = Raise e ->
    call_model model_invoke (mkState (h ++ [AIMessage stale]))
    = mkState (h ++ [AIMessage stale; AIMessage (error_text e)]).
Proof.
  intros model_invoke h stale e H.
  unfold call_model, call_model_body. cbn [messages].
  rewrite drop_placeholder_last. cbn [is_AIMessage].
  rewrite H. cbn [bind try_except messages].
  now rewrite <- app_assoc.
Qed.

Lemma error_path_keeps_placeholder_witness :
  call_model (fun _ => Raise (Exception (lit "timeout")))
             (mkState ([HumanMessage (lit "hi")] ++ [AIMessage (lit "stale")]))
  = mkState ([HumanMessage (lit "hi")]
               ++ [AIMessage (lit "stale");
                   AIMessage (error_text (Exception (lit "timeout")))]).
Proof.
  apply (@error_path_keeps_placeholder
           (fun _ => Raise (Exception (lit "timeout")))
           [HumanMessage (lit "hi")] (lit "stale")
           (Exception (lit "timeout"))).
  reflexivity.
Defined.

(** C10: the counter charges nothing for a content shorter than four
    characters or for an object without content, so a history made of
    such turns costs nothing and the trimmer keeps it whole under every
    budget. *)
Theorem free_turns_retained :
  (forall objs, Forall costs_nothing objs -> token_counter objs = 0) /\
  (forall B h,
      Forall (fun m => length (content m) < 4) h ->
      count_tokens h = 0 /\ trim B h = h).
Proof.
  assert (Hobjs : forall objs,
             Forall costs_nothing objs -> token_counter objs = 0).
  { induction 1 as [|o objs Ho _ IH]; [reflexivity|].
    cbn [token_counter]. unfold costs_nothing in Ho.
    destruct (getattr_content o) as [c|]; [|exact IH].
    rewrite IH, (Nat.div_small _ _ Ho). reflexivity. }
  split; [exact Hobjs|].
  intros B h Hh.
  assert (Hzero : count_tokens h = 0).
  { apply Hobjs, Forall_map.
    eapply Forall_impl; [|exact Hh]. intros m Hm. exact Hm. }
  split; [exact Hzero|].
  apply trim_all. lia.
Qed.

Lemma free_turns_retained_witness :
  token_counter [Message (HumanMessage (lit "hi")); Opaque_] = 0 /\
  count_tokens [HumanMessage (lit "hi"); AIMessage (lit "yes")] = 0 /\
  trim 0 [HumanMessage (lit "hi"); AIMessage (lit "yes")]
  = [HumanMessage (lit "hi"); AIMessage (lit "yes")].
Proof.
  destruct free_turns_retained as [Hobjs Hturns].
  split.
  - apply Hobjs. repeat constructor.
  - apply Hturns. repeat constructor.
Defined.

(** * Further properties of the code *)

(** ** The graph node *)

Lemma drop_placeholder_nil : drop_placeholder [] = [].
Proof. reflexivity. Qed.

Lemma drop_placeholder_cases : forall h,
    drop_placeholder h = h \/
    exists h' stale, h = h' ++ [AIMessage stale] /\ drop_placeholder h = h'.
Proof.
  intros h. induction h as [|m0 h0 _] using rev_ind; [now left|].
  rewrite drop_placeholder_last.
  destruct m0 as [c|c|c]; cbn [is_AIMessage]; [now left | now left |].
  right. now exists h0, c.
Qed.

Lemma call_model_success : forall model_invoke state completion,
    model_invoke (prompt_messages state) = Return completion ->
    call_model model_invoke state
    = mkState (drop_placeholder (messages state) ++ [AIMessage completion]).
Proof.
  intros model_invoke state completion H.
  unfold call_model, call_model_body.
  change (trimmer (drop_placeholder (messages state)))
    with (prompt_messages state).
  now rewrite H.
Qed.

Lemma call_model_failure : forall model_invoke state e,
    model_invoke (prompt_messages state) = Raise e ->
    call_model model_invoke state
    = mkState (messages state ++ [AIMessage (error_text e)]).
Proof.
  intros model_invoke state e H.
  unfold call_model, call_model_body.
  change (trimmer (drop_placeholder (messages state)))
    with (prompt_messages state).
  now rewrite H.
Qed.

(** Whatever the model does, the state [call_model] returns ends with an
    assistant turn, put after the input history or after the input
    history without its placeholder; the history never grows by more
    than one message and never shrinks. *)
Theorem call_model_ends_with_assistant : forall model_invoke state,
    (exists kept c,
        messages (call_model model_invoke state) = kept ++ [AIMessage c] /\
        (kept = messages state \/ kept = drop_placeholder (messages state)))
    /\ length (messages state)
       <= length (messages (call_model model_invoke state))
       <= S (length (messages state)).
Proof.
  intros model_invoke state.
  destruct (model_invoke (prompt_messages state)) as [c|e] eqn:E.
  - rewrite (call_model_success _ _ E). cbn [messages]. split.
    + exists (drop_placeholder (messages state)), c. auto.
    + rewrite length_app. simpl.
      destruct (drop_placeholder_cases (messages state))
        as [->|(h' & stale & Hh & ->)]; [lia|].
      rewrite Hh, length_app. simpl. lia.
  - rewrite (call_model_failure _ _ E). cbn [messages]. split.
    + exists (messages state), (error_text e). auto.
    + rewrite length_app. simpl. lia.
Qed.

(** On success a trailing assistant turn is regenerated: the state that
    comes back holds the completion in its place, not after it. *)
Theorem call_model_regenerates_placeholder :
  forall model_invoke h stale completion,
    model_invoke (trimmer h) = Return completion ->
    call_model model_invoke (mkState (h ++ [AIMessage stale]))
    = mkState (h ++ [AIMessage completion]).
Proof.
  intros model_invoke h stale completion H.
  rewrite (@call_model_success _ _ completion).
  - cbn [messages]. now rewrite drop_placeholder_last.
  - unfold prompt_messages. cbn [messages].
    now rewrite drop_placeholder_last.
Qed.

Lemma call_model_regenerates_placeholder_witness :
  call_model (fun _ => Return (lit "Hello!"))
             (mkState ([HumanMessage (lit "hi")] ++ [AIMessage (lit "stale")]))
  = mkState ([HumanMessage (lit "hi")] ++ [AIMessage (lit "Hello!")]).
Proof.
  apply (@call_model_regenerates_placeholder
           (fun _ => Return (lit "Hello!"))
           [HumanMessage (lit "hi")] (lit "stale") (lit "Hello!")).
  reflexivity.
Defined.

(** Running the node again on the result of a success does not make
    the history grow: the first completion is taken off as a
    placeholder, the same prompt is sent, and what the model answers the
    second time stands where the first completion stood.  The two runs
    may get different answers. *)
Theorem call_model_rerun_replaces_completion :
  forall first_invoke second_invoke state completion1 completion2,
    first_invoke (prompt_messages state) = Return completion1 ->
    second_invoke (prompt_messages state) = Return completion2 ->
    prompt_messages (call_model first_invoke state) = prompt_messages state /\
    call_model second_invoke (call_model first_invoke state)
    = mkState (drop_placeholder (messages state) ++ [AIMessage completion2]).
Proof.
  intros first_invoke second_invoke state completion1 completion2 H1 H2.
  rewrite (call_model_success _ _ H1).
  assert (E : prompt_messages
                (mkState (drop_placeholder (messages state)
                            ++ [AIMessage completion1]))
              = prompt_messages state).
  { unfold prompt_messages. cbn [messages].
    now rewrite drop_placeholder_last. }
  split; [exact E|].
  apply call_model_regenerates_placeholder. exact H2.
Qed.

Lemma call_model_rerun_replaces_completion_witness :
  prompt_messages (call_model (fun _ => Return (lit "Hello!"))
                              (mkState [HumanMessage (lit "hi")]))
  = prompt_messages (mkState [HumanMessage (lit "hi")]) /\
  call_model (fun _ => Return (lit "Hi there."))
    (call_model (fun _ => Return (lit "Hello!"))
                (mkState [HumanMessage (lit "hi")]))
  = mkState (drop_placeholder (messages (mkState [HumanMessage (lit "hi")]))
               ++ [AIMessage (lit "Hi there.")]).
Proof.
  apply (@call_model_rerun_replaces_completion
           (fun _ => Return (lit "Hello!"))
           (fun _ => Return (lit "Hi there."))
           (mkState [HumanMessage (lit "hi")])
           (lit "Hello!") (lit "Hi there.")); reflexivity.
Defined.

(** While the model keeps raising, every run of the node on its own
    result adds one more error turn and removes nothing: error turns
    pile up, placeholders included. *)
Theorem call_model_stacks_error_turns : forall model_invoke e,
    (forall prompt, model_invoke prompt = Raise e) ->
    forall n h,
      Nat.iter n (call_model model_invoke) (mkState h)
      = mkState (h ++ repeat (AIMessage (error_text e)) n).
Proof.
  intros model_invoke e H n. induction n as [|n IH]; intros h.
  - simpl. now rewrite app_nil_r.
  - rewrite Nat.iter_succ.
    rewrite IH, (@call_model_failure _ _ e) by apply H.
    cbn [messages]. rewrite <- app_assoc. do 2 f_equal.
    change [AIMessage (error_text e)]
      with (repeat (AIMessage (error_text e)) 1).
    rewrite <- repeat_app. f_equal. lia.
Qed.

Lemma call_model_stacks_error_turns_witness :
  Nat.iter 2 (call_model (fun _ => Raise (Exception (lit "timeout"))))
           (mkState [HumanMessage (lit "hi")])
  = mkState ([HumanMessage (lit "hi")]
               ++ repeat (AIMessage (error_text (Exception (lit "timeout")))) 2).
Proof.
  apply (@call_model_stacks_error_turns
           (fun _ => Raise (Exception (lit "timeout")))
           (Exception (lit "timeout")) (fun _ => eq_refl)).
Defined.

(** ** The prompt *)

Lemma leading_system_drop : forall h,
    leading_system h = false -> leading_system (drop_placeholder h) = false.
Proof.
  intros h H.
  destruct (drop_placeholder_cases h) as [->|(h' & stale & Hh & ->)];
    [exact H|].
  subst h. destruct h' as [|m0 h']; [reflexivity | exact H].
Qed.

Lemma count_tokens_drop : forall h,
    count_tokens (drop_placeholder h) <= count_tokens h.
Proof.
  intros h.
  destruct (drop_placeholder_cases h) as [->|(h' & stale & Hh & ->)];
    [lia|].
  subst h. rewrite count_tokens_app. lia.
Qed.

(** For a history without leading system message, the prompt is a
    trailing part of the history left after placeholder removal, it
    costs at most 200 units, and it is the longest such part: every
    longer trailing part costs more than 200 units. *)
Theorem prompt_is_longest_fitting_tail : forall state,
    leading_system (messages state) = false ->
    let h := drop_placeholder (messages state) in
    let window := prompt_messages state in
    window = skipn (length h - length window) h /\
    length window <= length h /\
    count_tokens window <= 200 /\
    forall k, length window < k <= length h ->
              200 < count_tokens (skipn (length h - k) h).
Proof.
  intros state H h window. subst h window. unfold prompt_messages, trimmer.
  apply leading_system_drop in H. split; [|split; [|split]].
  - now apply trim_suffix.
  - pose proof (f_equal (@length _)
                  (trim_suffix 200 (drop_placeholder (messages state)) H))
      as E.
    rewrite length_skipn in E. lia.
  - now apply trim_fits.
  - intros k Hk. now apply trim_longest.
Qed.

Lemma prompt_is_longest_fitting_tail_witness :
  let state := mkState [HumanMessage (repeat 97%N 400);
                        AIMessage (repeat 98%N 400);
                        HumanMessage (repeat 99%N 400)] in
  let h := drop_placeholder (messages state) in
  let window := prompt_messages state in
  window = skipn (length h - length window) h /\
  length window <= length h /\
  count_tokens window <= 200 /\
  forall k, length window < k <= length h ->
            200 < count_tokens (skipn (length h - k) h).
Proof.
  apply (@prompt_is_longest_fitting_tail
           (mkState [HumanMessage (repeat 97%N 400);
                     AIMessage (repeat 98%N 400);
                     HumanMessage (repeat 99%N 400)])).
  reflexivity.
Defined.

(** A history that costs at most 200 units is sent whole: the prompt is
    the history after placeholder removal, with nothing trimmed. *)
Theorem short_history_sent_whole : forall state,
    count_tokens (messages state) <= 200 ->
    prompt_messages state = drop_placeholder (messages state).
Proof.
  intros state H. unfold prompt_messages, trimmer.
  apply trim_all. pose proof (count_tokens_drop (messages state)). lia.
Qed.

Lemma short_history_sent_whole_witness :
  prompt_messages (mkState [HumanMessage (lit "hi"); AIMessage (lit "stale")])
  = drop_placeholder
      (messages (mkState [HumanMessage (lit "hi"); AIMessage (lit "stale")])).
Proof.
  apply (@short_history_sent_whole
           (mkState [HumanMessage (lit "hi"); AIMessage (lit "stale")])).
  vm_compute. repeat constructor.
Defined.

(** A history that itself starts with a system message that fits the
    budget keeps it in first place; what follows it in the window is a
    trailing part of the rest, and the whole window fits the budget. *)
Theorem leading_system_message_kept : forall B sys rest,
    charged (SystemMessage sys) <= B ->
    exists dropped kept,
      rest = dropped ++ kept /\
      trim B (SystemMessage sys :: rest) = SystemMessage sys :: kept /\
      count_tokens (SystemMessage sys :: kept) <= B.
Proof.
  intros B sys rest H.
  pose proof (@last_fits_system count_tokens count_tokens_app
                (SystemMessage sys) rest B H) as Hfit.
  unfold trim, langchain.trim_messages_last.
  rewrite (@last_system count_tokens (SystemMessage sys) rest B eq_refl)
    in Hfit |- *.
  rewrite (first_max_prefix count_tokens) in Hfit |- *.
  set (k := length (langchain._first_max_tokens count_tokens (rev rest)
                      (B - count_tokens [SystemMessage sys]))) in *.
  rewrite firstn_rev, rev_involutive in Hfit |- *.
  exists (firstn (length rest - k) rest), (skipn (length rest - k) rest).
  repeat split; [now rewrite firstn_skipn | exact Hfit].
Qed.

Lemma leading_system_message_kept_witness :
  exists dropped kept,
    [HumanMessage (repeat 97%N 900); HumanMessage (lit "hello")]
    = dropped ++ kept /\
    trim 200 (SystemMessage (content system_instruction)
                :: [HumanMessage (repeat 97%N 900); HumanMessage (lit "hello")])
    = SystemMessage (content system_instruction) :: kept /\
    count_tokens (SystemMessage (content system_instruction) :: kept) <= 200.
Proof.
  apply (@leading_system_message_kept 200 (content system_instruction)
           [HumanMessage (repeat 97%N 900); HumanMessage (lit "hello")]).
  vm_compute. repeat constructor.
Defined.

(** ** The token counter *)

(** The counter is a sum over the objects: it is additive over
    concatenation and the objects without [content] do not count. *)
Theorem token_counter_additive : forall a b,
    token_counter (a ++ b) = token_counter a + token_counter b /\
    token_counter (filter has_content a) = token_counter a.
Proof.
  intros a b. split; [apply token_counter_app|].
  induction a as [|o a IH]; [reflexivity|].
  unfold has_content in *. cbn [filter token_counter].
  destruct (getattr_content o) as [c|] eqn:E; [|exact IH].
  cbn [token_counter]. now rewrite E, IH.
Qed.

(** The cost of a list does not depend on the order of its messages. *)
Theorem token_counter_order_insensitive : forall a b,
    Permutation a b -> token_counter a = token_counter b.
Proof.
  induction 1 as [|o a b _ IH|o1 o2 a|a b c _ IH1 _ IH2].
  - reflexivity.
  - cbn [token_counter]. now rewrite IH.
  - cbn [token_counter].
    destruct (getattr_content o1), (getattr_content o2); lia.
  - congruence.
Qed.

Lemma token_counter_order_insensitive_witness :
  token_counter [Message (HumanMessage (lit "hello")); Opaque_]
  = token_counter [Opaque_; Message (HumanMessage (lit "hello"))].
Proof.
  apply (@token_counter_order_insensitive
           [Message (HumanMessage (lit "hello")); Opaque_]
           [Opaque_; Message (HumanMessage (lit "hello"))]).
  apply perm_swap.
Defined.

Lemma content_bounds : forall m,
    4 * (length (content m) / 4) <= length (content m)
    <= 4 * (length (content m) / 4) + 3.
Proof.
  intros m.
  pose proof (Nat.div_mod_eq (length (content m)) 4) as E.
  pose proof (Nat.mod_upper_bound (length (content m)) 4 ltac:(lia)) as U.
  lia.
Qed.

Lemma total_chars_cons : forall m msgs,
    total_chars (m :: msgs) = length (content m) + total_chars msgs.
Proof. reflexivity. Qed.

Lemma count_tokens_cons : forall m msgs,
    count_tokens (m :: msgs) = length (content m) / 4 + count_tokens msgs.
Proof. reflexivity. Qed.

Lemma total_chars_upper : forall msgs,
    total_chars msgs <= 4 * count_tokens msgs + 3 * length msgs.
Proof.
  induction msgs as [|m msgs IH]; [reflexivity|].
  rewrite total_chars_cons, count_tokens_cons. cbn [length].
  pose proof (content_bounds m). lia.
Qed.

(** Cost against characters: four characters per unit, and fewer than
    four characters lost to rounding per message. *)
Theorem cost_bounds_characters : forall msgs,
    4 * count_tokens msgs <= total_chars msgs
    <= 4 * count_tokens msgs + 3 * length msgs.
Proof.
  induction msgs as [|m msgs [IHlo IHhi]].
  - split; reflexivity.
  - rewrite total_chars_cons, count_tokens_cons. cbn [length].
    pose proof (content_bounds m) as [Hlo Hhi]. split; lia.
Qed.

(** For a history without leading system message, the prompt holds at
    most 800 characters plus three per message. *)
Theorem prompt_characters_bounded : forall state,
    leading_system (messages state) = false ->
    total_chars (prompt_messages state)
    <= 800 + 3 * length (prompt_messages state).
Proof.
  intros state H.
  pose proof (total_chars_upper (prompt_messages state)) as Hc.
  assert (count_tokens (prompt_messages state) <= 200).
  { unfold prompt_messages, trimmer. apply trim_fits.
    now apply leading_system_drop. }
  lia.
Qed.

Lemma prompt_characters_bounded_witness :
  total_chars (prompt_messages (mkState [HumanMessage (repeat 97%N 900)]))
  <= 800 + 3 * length (prompt_messages
                         (mkState [HumanMessage (repeat 97%N 900)])).
Proof.
  apply (@prompt_characters_bounded
           (mkState [HumanMessage (repeat 97%N 900)])).
  reflexivity.
Defined.

(** ** The chat page *)

Lemma chat_submit_cons : forall (metadata : Type)
    (stream : list BaseMessage -> list (BaseMessage * metadata)) h c p,
    chat_submit stream h (c :: p)
    = h ++ [HumanMessage (c :: p);
            AIMessage (stream_loop [] (stream (h ++ [HumanMessage (c :: p)])))].
Proof.
  intros. unfold chat_submit. now rewrite <- app_assoc.
Qed.

Lemma follows_app_closed : forall t,
    (forall b, follows b t = true) ->
    forall h b, follows b (h ++ t) = follows b h.
Proof.
  intros t Ht. induction h as [|m h IH]; intros b.
  - simpl. apply Ht.
  - destruct m as [c|c|c]; cbn [app follows];
      [reflexivity | apply IH | now rewrite IH].
Qed.

Lemma reachable_dialogue : forall (metadata : Type) h,
    reachable metadata h -> dialogue h = true.
Proof.
  unfold dialogue.
  induction 1 as [|stream h prompt _ IH|h c prompt _ IH]; [reflexivity| |].
  - destruct prompt as [|c p]; [exact IH|].
    rewrite chat_submit_cons, follows_app_closed; [exact IH|].
    intros b. reflexivity.
  - rewrite follows_app_closed; [exact IH|]. intros b. reflexivity.
Qed.

Lemma follows_counts : forall h b,
    follows b h = true ->
    Forall (fun m => is_SystemMessage m = false) h /\
    length (filter is_AIMessage h)
    <= length (filter is_HumanMessage h) + (if b then 1 else 0).
Proof.
  induction h as [|m h IH]; intros b H.
  - split; [constructor | simpl; lia].
  - destruct m as [c|c|c]; cbn [follows] in H.
    + discriminate.
    + destruct (IH true H) as [Hs Hc]. split; [now constructor|].
      cbn [filter is_AIMessage is_HumanMessage length].
      destruct b; lia.
    + apply andb_prop in H as [-> H].
      destruct (IH false H) as [Hs Hc]. split; [now constructor|].
      cbn [filter is_AIMessage is_HumanMessage length]. lia.
Qed.

Lemma follows_roles : forall h b i,
    follows b h = true ->
    nth_error (map chat_role h) i = Some (lit "ai") ->
    (i = 0 /\ b = true) \/
    exists j, i = S j /\ nth_error (map chat_role h) j = Some (lit "human").
Proof.
  induction h as [|m h IH]; intros b i H Hi.
  - destruct i; discriminate.
  - destruct m as [c|c|c]; cbn [follows] in H.
    + discriminate.
    + destruct i as [|i]; [vm_compute in Hi; discriminate|].
      right. cbn [map nth_error] in Hi.
      destruct (IH true i H Hi) as [[-> _]|(j & -> & Hj)].
      * now exists 0.
      * exists (S j). split; [reflexivity | exact Hj].
    + apply andb_prop in H as [-> H].
      destruct i as [|i]; [now left|].
      right. cbn [map nth_error] in Hi.
      destruct (IH false i H Hi) as [[_ Hb]|(j & -> & Hj)]; [discriminate|].
      exists (S j). split; [reflexivity | exact Hj].
Qed.

Lemma leading_system_snoc : forall h prompt,
    leading_system h = false ->
    leading_system (h ++ [HumanMessage prompt]) = false.
Proof.
  intros [|m h] prompt H; [reflexivity | exact H].
Qed.

(** The store is append-only: a submission keeps the stored history as
    it was, in front, and adds nothing for an empty prompt and two
    messages, the prompt and the answer, otherwise. *)
Theorem chat_submit_appends : forall (metadata : Type)
    (stream : list BaseMessage -> list (BaseMessage * metadata))
    chat_history prompt,
    firstn (length chat_history) (chat_submit stream chat_history prompt)
    = chat_history /\
    length (chat_submit stream chat_history prompt)
    = length chat_history + (match prompt with [] => 0 | _ => 2 end).
Proof.
  intros metadata stream h [|c p].
  - simpl. rewrite firstn_all. split; [reflexivity | lia].
  - rewrite chat_submit_cons. split.
    + rewrite firstn_app, firstn_all, Nat.sub_diag. simpl.
      now rewrite app_nil_r.
    + now rewrite length_app.
Qed.

(** Whatever the graph streams, the answer stored for a prompt is the
    concatenation of the contents of the [AIMessage] chunks of the
    stream, in order; chunks of other classes leave no trace, and a
    stream without [AIMessage] chunk stores an empty answer. *)
Theorem chat_submit_keeps_assistant_chunks : forall (metadata : Type)
    (stream : list BaseMessage -> list (BaseMessage * metadata))
    chat_history c p,
    chat_submit stream chat_history (c :: p)
    = chat_history ++
      [HumanMessage (c :: p);
       AIMessage
         (concat (map content
                      (filter is_AIMessage
                              (map fst (stream (chat_history
                                                  ++ [HumanMessage (c :: p)]))))))].
Proof.
  intros. rewrite chat_submit_cons, stream_loop_filter. reflexivity.
Qed.

(** Every history the page can hold, also after a submission that was
    cut short between storing the prompt and storing the answer, holds
    no system message, starts with a human turn, has each assistant turn
    right after a human turn, and so holds at most as many assistant
    turns as human turns. *)
Theorem reachable_history_dialogue : forall (metadata : Type) h,
    reachable metadata h ->
    dialogue h = true /\
    Forall (fun m => is_SystemMessage m = false) h /\
    leading_system h = false /\
    hd_error (map is_HumanMessage h) <> Some false /\
    length (filter is_AIMessage h) <= length (filter is_HumanMessage h).
Proof.
  intros metadata h H. apply reachable_dialogue in H.
  split; [exact H|]. unfold dialogue in H.
  destruct (follows_counts h false H) as [Hs Hc].
  repeat split.
  - exact Hs.
  - destruct h as [|m h]; [reflexivity | now inversion Hs].
  - destruct h as [|[c|c|c] h]; simpl in *; congruence.
  - lia.
Qed.

Lemma reachable_history_dialogue_witness :
  let h := chat_submit (fun _ => [(AIMessage (lit "Hello!"), tt)])
                       ([] ++ [HumanMessage (lit "hi")]) (lit "again") in
  dialogue h = true /\
  Forall (fun m => is_SystemMessage m = false) h /\
  leading_system h = false /\
  hd_error (map is_HumanMessage h) <> Some false /\
  length (filter is_AIMessage h) <= length (filter is_HumanMessage h).
Proof.
  apply (@reachable_history_dialogue unit).
  apply reachable_submit.
  apply (reachable_interrupted 104%N (lit "i") (reachable_start unit)).
Defined.

(** What the page sends to the graph, a stored history without leading
    system message followed by the new human turn, is never shortened
    by placeholder removal, and its prompt fits the budget of 200
    units. *)
Theorem chat_page_prompt_within_budget : forall h prompt,
    leading_system h = false ->
    let sent := h ++ [HumanMessage prompt] in
    drop_placeholder sent = sent /\
    count_tokens (prompt_messages (mkState sent)) <= 200.
Proof.
  intros h prompt H sent. subst sent.
  unfold prompt_messages. cbn [messages].
  rewrite drop_placeholder_last. cbn [is_AIMessage].
  split; [reflexivity|].
  apply trim_fits. now apply leading_system_snoc.
Qed.

Lemma chat_page_prompt_within_budget_witness :
  let sent := [HumanMessage (lit "hi"); HumanMessage (lit "again");
               AIMessage (lit "Hello!")]
                ++ [HumanMessage (repeat 97%N 900)] in
  drop_placeholder sent = sent /\
  count_tokens (prompt_messages (mkState sent)) <= 200.
Proof.
  apply (@chat_page_prompt_within_budget
           [HumanMessage (lit "hi"); HumanMessage (lit "again");
            AIMessage (lit "Hello!")]
           (repeat 97%N 900)).
  reflexivity.
Defined.

(** In the transcript of a history the page can hold, also after a
    submission that was cut short, a bubble with the role "ai" is never
    the first one and always comes right after a bubble with the role
    "human"; each bubble shows the content of its message. *)
Theorem transcript_assistant_follows_human : forall (metadata : Type) h,
    reachable metadata h ->
    (forall i, nth_error (map fst (render_history h)) i = Some (lit "ai") ->
               exists j, i = S j /\
                         nth_error (map fst (render_history h)) j
                         = Some (lit "human")) /\
    map snd (render_history h) = map content h.
Proof.
  intros metadata h H. apply reachable_dialogue in H.
  unfold render_history. rewrite !map_map. split; [|reflexivity].
  change (map (fun x => fst (chat_role x, content x)) h)
    with (map chat_role h).
  intros i Hi.
  destruct (@follows_roles h false i H Hi) as [[_ Hb]|Hj];
    [discriminate | exact Hj].
Qed.

Lemma transcript_assistant_follows_human_witness :
  let h := chat_submit (fun _ => [(AIMessage (lit "Hello!"), tt)])
                       ([] ++ [HumanMessage (lit "hi")]) (lit "again") in
  (forall i, nth_error (map fst (render_history h)) i = Some (lit "ai") ->
             exists j, i = S j /\
                       nth_error (map fst (render_history h)) j
                       = Some (lit "human")) /\
  map snd (render_history h) = map content h.
Proof.
  apply (@transcript_assistant_follows_human unit).
  apply reachable_submit.
  apply (reachable_interrupted 104%N (lit "i") (reachable_start unit)).
Defined.

Lemma last_cons_default : forall (A : Type) (l : list A) x d,
    last (x :: l) d = last l x.
Proof.
  intros A l. induction l as [|y l IH]; intros x d; [reflexivity|].
  change (last (x :: y :: l) d) with (last (y :: l) d).
  rewrite (IH y d), (IH y x). reflexivity.
Qed.

(** What the placeholder shows while streaming: after the [i]-th
    [AIMessage] chunk, the concatenation of the first [i] of them; the
    last text shown is the answer that is stored. *)
Theorem stream_writes_grow : forall (metadata : Type)
    (chunks : list (BaseMessage * metadata)) full_response,
    let fragments := map content (filter is_AIMessage (map fst chunks)) in
    stream_writes full_response chunks
    = map (fun i => full_response ++ concat (firstn i fragments))
          (seq 1 (length fragments)) /\
    last (stream_writes full_response chunks) full_response
    = stream_loop full_response chunks.
Proof.
  intros metadata chunks.
  induction chunks as [|[chunk md] chunks IH]; intros acc fragments;
    subst fragments; [split; reflexivity|].
  cbn [stream_writes stream_loop map fst filter].
  destruct (is_AIMessage chunk); [|apply IH].
  destruct (IH (acc ++ content chunk)) as [IH1 IH2]. split.
  - cbn [map length seq]. f_equal.
    + cbn [firstn concat]. now rewrite !app_nil_r.
    + rewrite IH1, <- (seq_shift _ 1), map_map. apply map_ext.
      intros i. cbn [firstn concat]. now rewrite app_assoc.
  - rewrite last_cons_default. exact IH2.
Qed.

(** ** Trimming as the conversation and the budget change *)

Lemma trim_length_le : forall B h,
    leading_system h = false -> length (trim B h) <= length h.
Proof.
  intros B h H.
  pose proof (f_equal (@length _) (trim_suffix B h H)) as E.
  rewrite length_skipn in E. lia.
Qed.

(** The window is determined by its length: a trailing part that fits
    while every longer one does not is the window. *)
Lemma trim_unique : forall B h k,
    leading_system h = false ->
    k <= length h ->
    count_tokens (skipn (length h - k) h) <= B ->
    (forall j, k < j <= length h ->
               B < count_tokens (skipn (length h - j) h)) ->
    trim B h = skipn (length h - k) h.
Proof.
  intros B h k H Hk Hfit Hmax.
  pose proof (trim_length_le B h H) as Hle.
  pose proof (trim_fits B h H) as Hfit0.
  rewrite (trim_suffix B h H) in Hfit0 |- *.
  destruct (lt_eq_lt_dec (length (trim B h)) k) as [[Hlt|Heq]|Hgt].
  - pose proof (@trim_longest B h k H ltac:(lia)). lia.
  - now rewrite Heq.
  - pose proof (Hmax (length (trim B h)) ltac:(lia)). lia.
Qed.

Lemma no_system_leading : forall h,
    Forall (fun m => is_SystemMessage m = false) h ->
    leading_system h = false.
Proof.
  intros [|m h] H; [reflexivity|]. now inversion H.
Qed.

Lemma no_system_skipn : forall n h,
    Forall (fun m => is_SystemMessage m = false) h ->
    Forall (fun m => is_SystemMessage m = false) (skipn n h).
Proof.
  intros n h H. rewrite <- (firstn_skipn n h) in H.
  now apply Forall_app in H.
Qed.

(** Trimming to a budget and then to a smaller one is trimming to the
    smaller one, for a history that holds no system message. *)
Theorem trim_smaller_budget_after_larger : forall B B' h,
    Forall (fun m => is_SystemMessage m = false) h ->
    B <= B' ->
    trim B (trim B' h) = trim B h.
Proof.
  intros B B' h Hns HB.
  pose proof (no_system_leading Hns) as H.
  pose proof (trim_length_le B h H) as Hk.
  pose proof (trim_length_le B' h H) as Hk'.
  pose proof (trim_fits B h H) as Hfit.
  rewrite (trim_suffix B h H) in Hfit.
  assert (Hkk : length (trim B h) <= length (trim B' h)).
  { destruct (le_lt_dec (length (trim B h)) (length (trim B' h)))
      as [Hle|Hlt]; [exact Hle|].
    pose proof (@trim_longest B' h (length (trim B h)) H ltac:(lia)). lia. }
  assert (Hmax : forall j, length (trim B h) < j <= length h ->
                           B < count_tokens (skipn (length h - j) h))
    by (intros j Hj; now apply trim_longest).
  rewrite (trim_suffix B h H), (trim_suffix B' h H).
  set (n := length h) in *.
  set (k := length (trim B h)) in *.
  set (k' := length (trim B' h)) in *.
  assert (Hlen : length (skipn (n - k') h) = k')
    by (rewrite length_skipn; fold n; lia).
  assert (Hsk : forall j, j <= k' ->
                          skipn (k' - j) (skipn (n - k') h) = skipn (n - j) h).
  { intros j Hj. rewrite skipn_skipn. f_equal. lia. }
  rewrite <- (Hsk k Hkk).
  assert (Hns' : Forall (fun m => is_SystemMessage m = false)
                        (skipn (n - k') h))
    by apply no_system_skipn, Hns.
  clearbody k k' n. revert Hlen Hsk Hns'.
  generalize (skipn (n - k') h) as w'. intros w' Hlen Hsk Hns'.
  subst k'. apply trim_unique.
  - now apply no_system_leading.
  - exact Hkk.
  - rewrite Hsk by exact Hkk. exact Hfit.
  - intros j Hj. rewrite Hsk by lia. apply Hmax. lia.
Qed.

Lemma trim_smaller_budget_after_larger_witness :
  trim 100 (trim 200 [HumanMessage (repeat 97%N 400);
                      AIMessage (repeat 98%N 400);
                      HumanMessage (repeat 99%N 400)])
  = trim 100 [HumanMessage (repeat 97%N 400);
              AIMessage (repeat 98%N 400);
              HumanMessage (repeat 99%N 400)].
Proof.
  apply (@trim_smaller_budget_after_larger 100 200
           [HumanMessage (repeat 97%N 400);
            AIMessage (repeat 98%N 400);
            HumanMessage (repeat 99%N 400)]).
  - repeat constructor.
  - repeat constructor.
Defined.

(** When a message is added to the history, the new window is a
    trailing part of the old window followed by the new message: a turn
    that was trimmed away does not come back. *)
Theorem trimmed_turns_stay_trimmed : forall B h m,
    leading_system (h ++ [m]) = false ->
    exists dropped, trim B h ++ [m] = dropped ++ trim B (h ++ [m]).
Proof.
  intros B h m H2.
  assert (H : leading_system h = false)
    by (destruct h; [reflexivity | exact H2]).
  pose proof (trim_length_le B (h ++ [m]) H2) as Hk2.
  pose proof (trim_fits B (h ++ [m]) H2) as Hfit2.
  pose proof (trim_length_le B h H) as Hk.
  rewrite (trim_suffix B (h ++ [m]) H2) in Hfit2 |- *.
  rewrite length_app in *. cbn [length] in *.
  destruct (length (trim B (h ++ [m]))) as [|j].
  - exists (trim B h ++ [m]).
    rewrite skipn_all2 by (rewrite length_app; simpl; lia).
    now rewrite app_nil_r.
  - replace (length h + 1 - S j) with (length h - j) in * by lia.
    rewrite skipn_app in Hfit2 |- *.
    replace (length h - j - length h) with 0 in * by lia.
    cbn [skipn] in *. rewrite count_tokens_app in Hfit2.
    assert (Hj : j <= length (trim B h)).
    { destruct (le_lt_dec j (length (trim B h))) as [Hle|Hlt]; [exact Hle|].
      pose proof (@trim_longest B h j H ltac:(lia)). lia. }
    exists (firstn (length (trim B h) - j) (trim B h)).
    rewrite app_assoc. f_equal.
    rewrite <- (firstn_skipn (length (trim B h) - j) (trim B h)) at 1.
    f_equal. rewrite (trim_suffix B h H) at 2.
    rewrite skipn_skipn. f_equal. lia.
Qed.

Lemma trimmed_turns_stay_trimmed_witness :
  exists dropped,
    trim 200 [HumanMessage (repeat 97%N 400); AIMessage (repeat 98%N 400)]
      ++ [HumanMessage (repeat 99%N 400)]
    = dropped
        ++ trim 200 ([HumanMessage (repeat 97%N 400);
                      AIMessage (repeat 98%N 400)]
                       ++ [HumanMessage (repeat 99%N 400)]).
Proof.
  apply (@trimmed_turns_stay_trimmed 200
           [HumanMessage (repeat 97%N 400); AIMessage (repeat 98%N 400)]
           (HumanMessage (repeat 99%N 400))).
  reflexivity.
Defined.

(** ** The sidebar menu and the profile page *)

Lemma str_eqb_eq : forall a b, str_eqb a b = true <-> a = b.
Proof.
  induction a as [|x a IH]; intros [|y b]; simpl; split;
    try discriminate; try reflexivity.
  - intros H. apply andb_prop in H as [Hx Hab].
    apply N.eqb_eq in Hx. apply IH in Hab. now subst.
  - intros H. injection H as -> ->.
    rewrite N.eqb_refl. now apply IH.
Qed.

(** Every option of the sidebar radio opens a page, each its own, and
    nothing else does. *)
Theorem every_menu_option_opens_a_page :
  map dispatch menu_options
  = [Some ChatPage; Some DailyTipsPage; Some ProfilePage; Some ToolsPage] /\
  forall menu, dispatch menu <> None -> In menu menu_options.
Proof.
  split; [reflexivity|].
  intros menu H. unfold dispatch in H.
  destruct (str_eqb menu (0x1f4ac%N :: lit " Chat")) eqn:E1;
    [apply str_eqb_eq in E1; subst; simpl; tauto|].
  destruct (str_eqb menu (0x1f31e%N :: lit " Daily Tips")) eqn:E2;
    [apply str_eqb_eq in E2; subst; simpl; tauto|].
  destruct (str_eqb menu
              ([0x1f881; 0x200d; 0x2642; 0xfe0f]%N ++ lit " Profile & Goals"))
    eqn:E3; [apply str_eqb_eq in E3; subst; simpl; tauto|].
  destruct (str_eqb menu ([0x1f6e0; 0xfe0f]%N ++ lit " Tools")) eqn:E4;
    [apply str_eqb_eq in E4; subst; simpl; tauto|].
  congruence.
Qed.

Lemma every_menu_option_opens_a_page_witness :
  In (0x1f4ac%N :: lit " Chat") menu_options.
Proof.
  apply (proj2 every_menu_option_opens_a_page (0x1f4ac%N :: lit " Chat")).
  discriminate.
Defined.

Lemma index_In : forall (float : Type) options x,
    In x options ->
    exists i, index options (@VStr float x) = Some i /\
              nth_error options i = Some x.
Proof.
  intros float options x. induction options as [|o options IH]; [intros []|].
  intros H. cbn [index value_eq_str].
  destruct (str_eqb x o) eqn:E.
  - apply str_eqb_eq in E. subst o. now exists 0.
  - destruct H as [->|H].
    + assert (str_eqb x x = true) by now apply str_eqb_eq. congruence.
    + destruct (IH H) as (i & -> & Hi). now exists (S i).
Qed.

(** The profile form never fails on what the page itself stores.  On
    the empty profile every widget gets its default.  On a profile saved
    from the widgets, whose three selections are options of their
    selectboxes, every widget gets the saved value back and every
    selectbox points at the saved option. *)
Theorem profile_form_restores_saved_profile : forall (float : Type) (zero : float),
    profile_form zero []
    = Some (mkForm (VStr []) (VInt 0) 0 (VFloat zero) (VInt 0) 0 2) /\
    forall name age gender weight height activity goal,
      In gender genders -> In activity activities -> In goal goals ->
      exists gender_i activity_i goal_i,
        profile_form zero
          (save_profile name age gender weight height activity goal)
        = Some (mkForm (VStr name) (VInt age) gender_i (VFloat weight)
                       (VInt height) activity_i goal_i) /\
        nth_error genders gender_i = Some gender /\
        nth_error activities activity_i = Some activity /\
        nth_error goals goal_i = Some goal.
Proof.
  intros float zero. split; [reflexivity|].
  intros name age gender weight height activity goal Hg Ha Ho.
  destruct (index_In float genders gender Hg) as (gi & Egi & Hgi).
  destruct (index_In float activities activity Ha) as (ai & Eai & Hai).
  destruct (index_In float goals goal Ho) as (oi & Eoi & Hoi).
  exists gi, ai, oi. repeat split; try assumption.
  unfold profile_form, save_profile.
  change (dict_get _ (lit "gender") _) with (@VStr float gender).
  change (dict_get _ (lit "activity") _) with (@VStr float activity).
  change (dict_get _ (lit "goal") _) with (@VStr float goal).
  rewrite Egi, Eai, Eoi. reflexivity.
Qed.

Lemma profile_form_restores_saved_profile_witness :
  exists gender_i activity_i goal_i,
    profile_form 0%Z
      (save_profile (lit "Ada") 36 (lit "Other") 60%Z 170
                    (lit "Active") (lit "Build muscle"))
    = Some (mkForm (VStr (lit "Ada")) (VInt 36) gender_i (VFloat 60%Z)
                   (VInt 170) activity_i goal_i) /\
    nth_error genders gender_i = Some (lit "Other") /\
    nth_error activities activity_i = Some (lit "Active") /\
    nth_error goals goal_i = Some (lit "Build muscle").
Proof.
  apply (proj2 (@profile_form_restores_saved_profile Z 0%Z)
               (lit "Ada") 36%Z (lit "Other") 60%Z 170%Z
               (lit "Active") (lit "Build muscle")).
  - vm_compute. tauto.
  - vm_compute. tauto.
  - vm_compute. tauto.
Defined.

(** ** The prompt holds nothing but history *)

Lemma In_firstn_list : forall (A : Type) n (l : list A) x,
    In x (firstn n l) -> In x l.
Proof.
  intros A n l x H. rewrite <- (firstn_skipn n l).
  apply in_or_app. now left.
Qed.

Lemma first_max_incl : forall tc msgs B x,
    In x (langchain._first_max_tokens tc msgs B) -> In x msgs.
Proof.
  intros tc msgs B x H. rewrite first_max_prefix in H.
  exact (In_firstn_list _ _ _ H).
Qed.

Lemma trim_incl : forall B h x, In x (trim B h) -> In x h.
Proof.
  intros B [|m0 rest] x; [intros []|].
  unfold trim, langchain.trim_messages_last, langchain._last_max_tokens.
  destruct (true && is_SystemMessage m0).
  - intros [<-|H]; [now left|]. right.
    apply in_rev in H. apply first_max_incl in H. now apply in_rev.
  - intros H. apply in_rev in H. apply first_max_incl in H.
    now apply in_rev.
Qed.

Lemma drop_placeholder_incl : forall h x,
    In x (drop_placeholder h) -> In x h.
Proof.
  intros h x H.
  destruct (drop_placeholder_cases h) as [E|(h' & stale & Hh & E)];
    rewrite E in H; [exact H|].
  subst h. apply in_or_app. now left.
Qed.

(** Every message of the prompt is a message of the input history:
    [call_model] sends the model nothing of its own, and so no system
    instruction that the history does not hold. *)
Theorem prompt_holds_only_history : forall state,
    incl (prompt_messages state) (messages state).
Proof.
  intros state m H. unfold prompt_messages, trimmer in H.
  apply trim_incl in H. now apply drop_placeholder_incl.
Qed.
